(** * report_generator.py: the analysis pipeline, embedded in Rocq

    The script builds a data frame with columns [Date], [Category] and
    [Amount], computes overall and per-category statistics with pandas,
    and lays the numbers out in a PDF.  This development embeds the data
    frame and the pandas calls the script makes on it.

    Amounts are float64 in the script.  Here a finite float is an exact
    rational ([Q]) and the only special value that the calls of the script
    can return, NaN, is a constructor of its own.  Where the rounding of
    float64 decides a property, the reductions are also given on binary64
    values ([sum64], [mean64], [max64], [min64]). *)

From Stdlib Require Import ZArith NArith QArith Qround Qminmax Qabs List String Ascii Bool Lia.
From Stdlib Require Import Sorting.Sorted Sorting.Permutation OrderedTypeEx DecimalString DecimalPos DecimalN Lqa ZifyNat.
From Stdlib Require Floats.
Import ListNotations.

Local Open Scope Q_scope.

(** ** Values *)

(** A float64 as returned by a pandas reduction. *)
Inductive float : Type :=
| Num (q : Q)
| NaN.

(** Equality of floats up to the representation of the rational. *)
Definition float_eq (x y : float) : Prop :=
  match x, y with
  | Num a, Num b => a == b
  | NaN, NaN => True
  | _, _ => False
  end.

(** A calendar date, as the number of days since 1970-01-01. *)
Definition date := Z.

(** Days since 1970-01-01 of the civil date [y]-[m]-[d] (proleptic
    Gregorian calendar). *)
Definition days_from_civil (y m d : Z) : date :=
  let y' := (if m <=? 2 then y - 1 else y)%Z in
  let era := (y' / 400)%Z in
  let yoe := (y' - era * 400)%Z in
  let mp := ((m + 9) mod 12)%Z in
  let doy := ((153 * mp + 2) / 5 + d - 1)%Z in
  let doe := (yoe * 365 + yoe / 4 - yoe / 100 + doy)%Z in
  (era * 146097 + doe - 719468)%Z.

(** ** The data frame *)

(** One row of [df]: the columns "Date", "Category" and "Amount". *)
Record Row : Type := mkRow {
  Date : date;
  Category : string;
  Amount : Q
}.

Definition DataFrame := list Row.

(** [df["Amount"]] and [df["Category"]]. *)
Definition amounts (df : DataFrame) : list Q := map Amount df.
Definition category_column (df : DataFrame) : list string := map Category df.

(** ** Series reductions *)

(** [Series.sum()]: 0 on the empty series.  The sum is exact here; the
    float64 sum, which rounds at every addition, is [sum64]. *)
Definition series_sum (xs : list Q) : Q := fold_right Qplus 0 xs.

(** [Series.mean()]: the sum over the number of values, NaN on the empty
    series.  The quotient is exact here; the float64 mean is [mean64]. *)
Definition series_mean (xs : list Q) : float :=
  match xs with
  | [] => NaN
  | _ :: _ => Num (series_sum xs / inject_Z (Z.of_nat (List.length xs)))
  end.

(** [Series.max()] and [Series.min()]: NaN on the empty series. *)
Definition series_max (xs : list Q) : float :=
  match xs with
  | [] => NaN
  | x :: xs' => Num (fold_left Qmax xs' x)
  end.

Definition series_min (xs : list Q) : float :=
  match xs with
  | [] => NaN
  | x :: xs' => Num (fold_left Qmin xs' x)
  end.

(** ** Step 3: the analysis *)

(** The [summary] dict; one field per key, in the order of the literal. *)
Record Summary : Type := mkSummary {
  Total_Transactions : nat;
  Total_Amount : float;
  Average_Amount : float;
  Highest_Sale : float;
  Lowest_Sale : float
}.

Definition summary (df : DataFrame) : Summary :=
  {| Total_Transactions := List.length df;
     Total_Amount := Num (series_sum (amounts df));
     Average_Amount := series_mean (amounts df);
     Highest_Sale := series_max (amounts df);
     Lowest_Sale := series_min (amounts df) |}.

(** The group keys of [df.groupby("Category")]: the distinct values of the
    column, in ascending order (groupby sorts its keys unless told
    otherwise, and the script does not tell it otherwise). *)
Fixpoint insert_key (k : string) (ks : list string) : list string :=
  match ks with
  | [] => [k]
  | k' :: ks' =>
      match String.compare k k' with
      | Lt => k :: ks
      | Eq => ks
      | Gt => k' :: insert_key k ks'
      end
  end.

Definition group_keys (col : list string) : list string :=
  fold_right insert_key [] col.

(** The "Amount" values of the rows of group [k], in row order. *)
Definition group_amounts (k : string) (df : DataFrame) : list Q :=
  amounts (filter (fun r => String.eqb (Category r) k) df).

(** One row of [category_totals]; the columns are "Category", "count",
    "sum" and "mean". *)
Record CategoryRow : Type := mkCategoryRow {
  cat : string;
  count : nat;
  sum : float;
  mean : float
}.

(** [.agg(["count", "sum", "mean"])] on one group. *)
Definition agg (k : string) (xs : list Q) : CategoryRow :=
  {| cat := k;
     count := List.length xs;
     sum := Num (series_sum xs);
     mean := series_mean xs |}.

Definition category_totals (df : DataFrame) : list CategoryRow :=
  map (fun k => agg k (group_amounts k df)) (group_keys (category_column df)).

(** The error kinds of the specification's taxonomy.  The script defines
    and raises no exception of its own and the pandas reductions above
    return on every frame, so step 3 always takes the [inr] branch. *)
Inductive exn : Type := InputError | IOError | RenderError.

Definition analyze (df : DataFrame) : exn + (Summary * list CategoryRow) :=
  inr (summary df, category_totals df).

(** Float addition: NaN is absorbing. *)
Definition fadd (x y : float) : float :=
  match x, y with
  | Num a, Num b => Num (a + b)
  | _, _ => NaN
  end.

(** [sum(c.count for c in rows)] and [sum(c.sum for c in rows)]. *)
Definition sum_counts (rows : list CategoryRow) : nat :=
  fold_right (fun r n => (count r + n)%nat) O rows.

Definition sum_totals (rows : list CategoryRow) : float :=
  fold_right (fun r x => fadd (sum r) x) (Num 0) rows.

(** The sum of the group sizes and of the group sums over a list of keys. *)
Definition keys_count (ks : list string) (df : DataFrame) : nat :=
  fold_right (fun k n => (List.length (group_amounts k df) + n)%nat) O ks.

Definition keys_total (ks : list string) (df : DataFrame) : Q :=
  fold_right (fun k q => series_sum (group_amounts k df) + q) 0 ks.

(** Field-wise equality of the statistics, up to [float_eq]. *)
Definition summary_eq (a b : Summary) : Prop :=
  Total_Transactions a = Total_Transactions b /\
  float_eq (Total_Amount a) (Total_Amount b) /\
  float_eq (Average_Amount a) (Average_Amount b) /\
  float_eq (Highest_Sale a) (Highest_Sale b) /\
  float_eq (Lowest_Sale a) (Lowest_Sale b).

Definition category_row_eq (a b : CategoryRow) : Prop :=
  cat a = cat b /\ count a = count b /\
  float_eq (sum a) (sum b) /\ float_eq (mean a) (mean b).

(** The order of the group keys. *)
Definition string_lt (a b : string) : Prop := String.compare a b = Lt.

(** Whether some row of the frame has category [c]. *)
Definition has_category (df : DataFrame) (c : string) : bool :=
  existsb (String.eqb c) (category_column df).

(** ** Step 5: the summary table of the report *)

(** Round to the nearest integer, ties to the even one: the rounding of
    float formatting and of [np.round]. *)
Definition rint (x : Q) : Z :=
  let f := Qfloor x in
  match Qcompare (x - inject_Z f) (1 # 2) with
  | Lt => f
  | Eq => if Z.even f then f else (f + 1)%Z
  | Gt => (f + 1)%Z
  end.

(** The decimal digits of a natural number, most significant first. *)
Definition digits (n : N) : list ascii :=
  list_ascii_of_string (NilZero.string_of_uint (N.to_uint n)).

(** Thousands separators, on the digits taken least significant first:
    [k] is the number of digits the current group still takes. *)
Fixpoint commas (k : nat) (ds : list ascii) : list ascii :=
  match ds with
  | [] => []
  | d :: ds' =>
      match k with
      | O => ","%char :: d :: commas 2 ds'
      | S k' => d :: commas k' ds'
      end
  end.

Definition group_thousands (ds : list ascii) : list ascii :=
  rev (commas 3 (rev ds)).

(** The format specification [,.2f]. *)
Definition format_2f (v : float) : string :=
  match v with
  | NaN => "nan"%string
  | Num q =>
      let h := Z.to_N (Z.abs (rint (q * 100))) in
      let sign := match q ?= 0 with Lt => ["-"%char] | _ => [] end in
      string_of_list_ascii
        (sign ++ group_thousands (digits (h / 100))
              ++ "."%char :: digits ((h / 10) mod 10) ++ digits (h mod 10))
  end.

(** The values of the [summary] dict: [len(df)] is an int, the pandas
    reductions return float64, which is a Python float. *)
Inductive pyval : Type :=
| PyInt (n : Z)
| PyFloat (x : float).

(** [summary.items()], in insertion order. *)
Definition items (s : Summary) : list (string * pyval) :=
  [ ("Total Transactions"%string, PyInt (Z.of_nat (Total_Transactions s)));
    ("Total Amount"%string, PyFloat (Total_Amount s));
    ("Average Amount"%string, PyFloat (Average_Amount s));
    ("Highest Sale"%string, PyFloat (Highest_Sale s));
    ("Lowest Sale"%string, PyFloat (Lowest_Sale s)) ].

(** A cell handed to the table: a formatted string, or the value as it
    is. *)
Inductive cell : Type :=
| StrCell (s : string)
| IntCell (n : Z).

(** [[k, f"{v:,.2f}" if isinstance(v, float) else v] for k, v in
    summary.items()]. *)
Definition data_summary (s : Summary) : list (string * cell) :=
  map (fun kv : string * pyval =>
         let (k, v) := kv in
         (k, match v with
             | PyFloat x => StrCell (format_2f x)
             | PyInt n => IntCell n
             end))
      (items s).

(** The text the table draws for a cell: a string as it is, anything else
    through [str]. *)
Definition cell_text (c : cell) : string :=
  match c with
  | StrCell s => s
  | IntCell n =>
      match n with
      | Zneg p => String "-"%char (string_of_list_ascii (digits (Npos p)))
      | _ => string_of_list_ascii (digits (Z.to_N n))
      end
  end.

Definition is_digit (c : ascii) : bool :=
  let n := nat_of_ascii c in (48 <=? n)%nat && (n <=? 57)%nat.

(** Digit groups separated by commas, read least significant first: every
    group has three digits but the leading one, which has one to three. *)
Fixpoint grouped (k : nat) (cs : list ascii) : bool :=
  match cs with
  | [] => (k <? 3)%nat
  | c :: cs' =>
      match k with
      | O => Ascii.eqb c ","%char && grouped 3 cs'
      | S k' => is_digit c && grouped k' cs'
      end
  end.

(** A number written with thousands separators and two decimals: an
    optional sign, comma-separated groups of digits, a point, two digits. *)
Definition thousands_2dp (s : string) : bool :=
  let cs := list_ascii_of_string s in
  let body := match cs with
              | c :: r => if Ascii.eqb c "-"%char then r else cs
              | [] => cs
              end in
  match rev body with
  | d2 :: d1 :: p :: ip =>
      is_digit d2 && is_digit d1 && Ascii.eqb p "."%char && grouped 3 ip
  | _ => false
  end.

(** ** Step 2: the sample dataset *)

(** The interface of numpy's global generator that the script relies on:
    seeding replaces the state by one that depends on the seed alone, a
    sample lies in [0, 1), and an index drawn below [n] is below [n]. *)
Class RandomState : Type := {
  rng : Type;
  seed : Z -> rng;
  random_sample : rng -> Q * rng;
  random_below : nat -> rng -> nat * rng;
  random_sample_range : forall s, 0 <= fst (random_sample s) /\ fst (random_sample s) < 1;
  random_below_lt : forall n s, (0 < n)%nat -> (fst (random_below n s) < n)%nat
}.

Section DataSource.

Context {RS : RandomState}.

(** A call that reads and advances the generator and may raise. *)
Definition M (A : Type) : Type := rng -> option (A * rng).

Definition ret {A : Type} (x : A) : M A := fun s => Some (x, s).

Definition raise {A : Type} : M A := fun _ => None.

Definition bind {A B : Type} (m : M A) (f : A -> M B) : M B :=
  fun s => match m s with
           | Some (x, s') => f x s'
           | None => None
           end.

Notation "x <- m ;; k" := (bind m (fun x => k))
  (at level 61, m at next level, right associativity).

(** [size] draws in a row. *)
Fixpoint repeatM {A : Type} (size : nat) (m : M A) : M (list A) :=
  match size with
  | O => ret []
  | S size' => x <- m ;; xs <- repeatM size' m ;; ret (x :: xs)
  end.

(** [np.random.seed(n)]. *)
Definition np_random_seed (n : Z) : M unit := fun _ => Some (tt, seed n).

(** [np.random.choice(a, size)]: [size] elements of [a], each at an index
    drawn below [len(a)]; it raises on an empty [a]. *)
Definition np_random_choice {A : Type} (a : list A) (size : nat) : M (list A) :=
  repeatM size
    (fun s => let (i, s') := random_below (List.length a) s in
              match nth_error a i with
              | Some x => Some (x, s')
              | None => None
              end).

(** [np.random.uniform(low, high, size)]. *)
Definition np_random_uniform (low high : Q) (size : nat) : M (list Q) :=
  repeatM size
    (fun s => let (u, s') := random_sample s in
              Some (low + (high - low) * u, s')).

(** [np.round(xs, 2)], on the exact value of each amount.  numpy rounds
    the float64 product of the amount by 100, which at a tie can give the
    neighbouring cent. *)
Definition np_round2 (xs : list Q) : list Q :=
  map (fun x => inject_Z (rint (x * 100)) / 100) xs.

(** [pd.date_range(start, periods)]: consecutive days from [start]. *)
Definition date_range (start : date) (periods : nat) : list date :=
  map (fun i => (start + Z.of_nat i)%Z) (seq 0 periods).

(** [pd.DataFrame(data)] on the three columns; it raises when they differ
    in length. *)
Fixpoint frame (ds : list date) (cs : list string) (xs : list Q)
  : option DataFrame :=
  match ds, cs, xs with
  | [], [], [] => Some []
  | d :: ds', c :: cs', x :: xs' =>
      match frame ds' cs' xs' with
      | Some rows => Some (mkRow d c x :: rows)
      | None => None
      end
  | _, _, _ => None
  end.

Definition categories : list string :=
  ["Electronics"; "Clothing"; "Books"; "Food"]%string.

(** Step 2 with the seed, the date range and the number of rows left
    open. *)
Definition sample_dataset (sd : Z) (start : date) (periods size : nat)
  : M DataFrame :=
  _ <- np_random_seed sd ;;
  let dates := date_range start periods in
  ds <- np_random_choice dates size ;;
  cs <- np_random_choice categories size ;;
  xs <- np_random_uniform 50 1000 size ;;
  match frame ds cs (np_round2 xs) with
  | Some rows => ret rows
  | None => raise
  end.

(** Step 2 as the script runs it. *)
Definition df : M DataFrame :=
  sample_dataset 10 (days_from_civil 2025 1 1) 100 120.

(** What a row of the sample dataset satisfies. *)
Definition row_in_range (start : date) (periods : nat) (r : Row) : Prop :=
  0 <= Amount r /\ 50 <= Amount r /\ Amount r <= 1000 /\
  (exists cents : Z, Amount r == cents # 100) /\
  In (Category r) categories /\
  (start <= Date r < start + Z.of_nat periods)%Z.

End DataSource.

(** A small linear congruential generator, to run the data source on. *)
Definition lcg_next (s : Z) : Z := ((1103515245 * s + 12345) mod 2147483648)%Z.

Definition lcg_sample (s : Z) : Q * Z :=
  let s' := lcg_next s in ((s' mod 1000)%Z # 1000, s').

Definition lcg_below (n : nat) (s : Z) : nat * Z :=
  let s' := lcg_next s in (Z.to_nat ((s' / 65536) mod Z.of_nat n), s').

(** The three-row table of the end-to-end scenario. *)
Definition scenario_table : DataFrame :=
  [ mkRow (days_from_civil 2025 1 1) "Books" 100;
    mkRow (days_from_civil 2025 1 2) "Books" 200;
    mkRow (days_from_civil 2025 1 3) "Food" 50 ].

(** ** Step 5: the category table of the report *)

(** A cell of [category_totals.round(2).values.tolist()]: the category is
    a str, the count an int, the sum and the mean floats. *)
Inductive pyobj : Type :=
| OStr (s : string)
| OInt (n : Z)
| OFloat (x : float).

(** [DataFrame.round(2)] on a float: two decimals, ties to even, on the
    exact value (pandas rounds the float64 product by 100, which at a tie
    can give the neighbouring cent); NaN stays NaN. *)
Definition round2 (x : float) : float :=
  match x with
  | Num q => Num (inject_Z (rint (q * 100)) / 100)
  | NaN => NaN
  end.

(** [[category_totals.columns.tolist()] +
    category_totals.round(2).values.tolist()]: the header, then one list
    per row; [round] leaves the str and the int column as they are. *)
Definition cat_table_data (rows : list CategoryRow) : list (list pyobj) :=
  [OStr "Category"; OStr "count"; OStr "sum"; OStr "mean"]
  :: map (fun r => [ OStr (cat r); OInt (Z.of_nat (count r));
                     OFloat (round2 (sum r)); OFloat (round2 (mean r)) ])
         rows.


(** The statistics written to two decimals. *)
Definition summary_2dp (s : Summary) : Summary :=
  {| Total_Transactions := Total_Transactions s;
     Total_Amount := round2 (Total_Amount s);
     Average_Amount := round2 (Average_Amount s);
     Highest_Sale := round2 (Highest_Sale s);
     Lowest_Sale := round2 (Lowest_Sale s) |}.

Definition row_2dp (r : CategoryRow) : CategoryRow :=
  {| cat := cat r; count := count r;
     sum := round2 (sum r); mean := round2 (mean r) |}.

(** A float that is a number between [lo] and [hi]. *)
Definition float_between (lo hi : Q) (x : float) : Prop :=
  match x with
  | Num q => lo <= q /\ q <= hi
  | NaN => False
  end.

Definition not_comma (c : ascii) : bool := negb (Ascii.eqb c ","%char).

(** The characters that [format_2f] writes after the sign, for [h]
    hundredths. *)
Definition unsigned_2f (h : N) : list ascii :=
  group_thousands (digits (h / 100))
    ++ "."%char :: digits ((h / 10) mod 10) ++ digits (h mod 10).

(** ** The reductions in binary64 *)

(** The reductions of the summary on float64 values, as the script computes
    them.  numpy adds a series of fewer than eight values from left to
    right, starting at 0; those are the series evaluated below. *)
Definition sum64 (xs : list PrimFloat.float) : PrimFloat.float :=
  fold_left PrimFloat.add xs PrimFloat.zero.

Definition len64 (xs : list PrimFloat.float) : PrimFloat.float :=
  PrimFloat.of_uint63 (Uint63.of_Z (Z.of_nat (List.length xs))).

Definition mean64 (xs : list PrimFloat.float) : PrimFloat.float :=
  match xs with
  | [] => PrimFloat.nan
  | _ :: _ => PrimFloat.div (sum64 xs) (len64 xs)
  end.

Definition max64 (xs : list PrimFloat.float) : PrimFloat.float :=
  match xs with
  | [] => PrimFloat.nan
  | x :: xs' => fold_left (fun a b => if PrimFloat.ltb a b then b else a) xs' x
  end.

Definition min64 (xs : list PrimFloat.float) : PrimFloat.float :=
  match xs with
  | [] => PrimFloat.nan
  | x :: xs' => fold_left (fun a b => if PrimFloat.ltb b a then b else a) xs' x
  end.

(** The [summary] dict on a float64 "Amount" column. *)
Record Summary64 : Type := mkSummary64 {
  Total_Transactions64 : nat;
  Total_Amount64 : PrimFloat.float;
  Average_Amount64 : PrimFloat.float;
  Highest_Sale64 : PrimFloat.float;
  Lowest_Sale64 : PrimFloat.float
}.

Definition summary64 (amount : list PrimFloat.float) : Summary64 :=
  {| Total_Transactions64 := List.length amount;
     Total_Amount64 := sum64 amount;
     Average_Amount64 := mean64 amount;
     Highest_Sale64 := max64 amount;
     Lowest_Sale64 := min64 amount |}.

(** The float64 nearest to an amount of [c] cents: the correctly rounded
    quotient of [c] by 100. *)
Definition cents64 (c : Z) : PrimFloat.float :=
  PrimFloat.div (PrimFloat.of_uint63 (Uint63.of_Z c))
                (PrimFloat.of_uint63 (Uint63.of_Z 100)).

(** Three sales of 50.08. *)
Definition three_sales : list PrimFloat.float :=
  [cents64 5008; cents64 5008; cents64 5008].

(** * Properties *)

(** ** The order of strings *)

Lemma string_lt_trans (a b c : string) :
  string_lt a b -> string_lt b c -> string_lt a c.
Proof.
  unfold string_lt. intros Hab Hbc.
  apply String_as_OT.cmp_lt in Hab. apply String_as_OT.cmp_lt in Hbc.
  apply String_as_OT.cmp_lt. exact (String_as_OT.lt_trans _ _ _ Hab Hbc).
Qed.

Lemma string_lt_irrefl (a : string) : ~ string_lt a a.
Proof.
  unfold string_lt. intros H.
  pose proof (String.compare_antisym a a) as E.
  rewrite H in E. discriminate E.
Qed.

Lemma string_gt_lt (a b : string) : String.compare a b = Gt -> string_lt b a.
Proof.
  unfold string_lt. intros H.
  rewrite String.compare_antisym, H. reflexivity.
Qed.

(** ** The group keys *)

Lemma insert_key_In (k x : string) (ks : list string) :
  In x (insert_key k ks) <-> x = k \/ In x ks.
Proof.
  induction ks as [|k' ks IH]; simpl.
  - intuition.
  - destruct (String.compare k k') eqn:E; simpl.
    + apply String.compare_eq_iff in E. subst k'. intuition.
    + intuition.
    + rewrite IH. intuition.
Qed.

Lemma insert_key_sorted (k : string) (ks : list string) :
  StronglySorted string_lt ks -> StronglySorted string_lt (insert_key k ks).
Proof.
  induction ks as [|k' ks IH]; simpl; intros Hs.
  - constructor; constructor.
  - inversion Hs as [|? ? Hs' Hall]; subst.
    destruct (String.compare k k') eqn:E.
    + exact Hs.
    + constructor; [exact Hs|].
      constructor; [exact E|].
      eapply Forall_impl; [|exact Hall].
      intros c Hc. exact (string_lt_trans _ _ _ E Hc).
    + constructor; [apply IH; exact Hs'|].
      apply Forall_forall. intros x Hx.
      apply insert_key_In in Hx. destruct Hx as [->|Hx].
      * apply string_gt_lt. exact E.
      * rewrite Forall_forall in Hall. apply Hall. exact Hx.
Qed.

Lemma group_keys_In (col : list string) (x : string) :
  In x (group_keys col) <-> In x col.
Proof.
  induction col as [|c col IH]; simpl.
  - reflexivity.
  - rewrite insert_key_In, IH. intuition.
Qed.

Lemma group_keys_sorted (col : list string) :
  StronglySorted string_lt (group_keys col).
Proof.
  induction col as [|c col IH]; simpl.
  - constructor.
  - apply insert_key_sorted. exact IH.
Qed.

Lemma sorted_NoDup (ks : list string) :
  StronglySorted string_lt ks -> NoDup ks.
Proof.
  induction 1 as [|k ks Hs IH Hall]; constructor; [|exact IH].
  intros Hin. rewrite Forall_forall in Hall.
  exact (string_lt_irrefl k (Hall k Hin)).
Qed.

(** Two strictly ascending lists with the same elements are the same
    list. *)
Lemma sorted_unique (l1 : list string) :
  forall l2, StronglySorted string_lt l1 -> StronglySorted string_lt l2 ->
  (forall x, In x l1 <-> In x l2) -> l1 = l2.
Proof.
  induction l1 as [|a l1 IH]; intros [|b l2] H1 H2 Hiff.
  - reflexivity.
  - exfalso. apply (proj2 (Hiff b)). left. reflexivity.
  - exfalso. apply (proj1 (Hiff a)). left. reflexivity.
  - inversion H1 as [|? ? H1' A1]; inversion H2 as [|? ? H2' A2]; subst.
    rewrite Forall_forall in A1, A2.
    assert (a = b) as ->.
    { destruct (proj1 (Hiff a) (or_introl eq_refl)) as [E|Ha]; [congruence|].
      destruct (proj2 (Hiff b) (or_introl eq_refl)) as [E|Hb]; [congruence|].
      exfalso. apply (string_lt_irrefl a).
      exact (string_lt_trans _ _ _ (A1 _ Hb) (A2 _ Ha)). }
    f_equal. apply IH; [exact H1'|exact H2'|].
    intros x. split; intros Hx.
    + destruct (proj1 (Hiff x) (or_intror Hx)) as [E|Hx']; [|exact Hx'].
      subst x. exfalso. exact (string_lt_irrefl b (A1 _ Hx)).
    + destruct (proj2 (Hiff x) (or_intror Hx)) as [E|Hx']; [|exact Hx'].
      subst x. exfalso. exact (string_lt_irrefl b (A2 _ Hx)).
Qed.

Lemma filter_sorted (f : string -> bool) (ks : list string) :
  StronglySorted string_lt ks -> StronglySorted string_lt (filter f ks).
Proof.
  induction 1 as [|k ks Hs IH Hall]; simpl.
  - constructor.
  - destruct (f k); [|exact IH].
    constructor; [exact IH|].
    rewrite Forall_forall in *. intros x Hx.
    apply filter_In in Hx. apply Hall. tauto.
Qed.

Lemma has_category_In (df : DataFrame) (c : string) :
  has_category df c = true <-> In c (category_column df).
Proof.
  unfold has_category. rewrite existsb_exists. split.
  - intros [x [Hx E]]. apply String.eqb_eq in E. subst. exact Hx.
  - intros H. exists c. split; [exact H|apply String.eqb_refl].
Qed.

(** ** Groups partition the frame *)

Lemma group_amounts_cons (k : string) (r : Row) (df : DataFrame) :
  group_amounts k (r :: df) =
  if String.eqb (Category r) k then Amount r :: group_amounts k df
  else group_amounts k df.
Proof.
  unfold group_amounts, amounts. simpl.
  destruct (String.eqb (Category r) k); reflexivity.
Qed.

Lemma sum_counts_keys (ks : list string) (df : DataFrame) :
  sum_counts (map (fun k => agg k (group_amounts k df)) ks) = keys_count ks df.
Proof.
  induction ks as [|k ks IH]; simpl; [reflexivity|].
  rewrite IH. reflexivity.
Qed.

Lemma sum_totals_keys (ks : list string) (df : DataFrame) :
  sum_totals (map (fun k => agg k (group_amounts k df)) ks) = Num (keys_total ks df).
Proof.
  induction ks as [|k ks IH]; simpl; [reflexivity|].
  rewrite IH. reflexivity.
Qed.

Lemma keys_count_skip (ks : list string) (r : Row) (df : DataFrame) :
  ~ In (Category r) ks -> keys_count ks (r :: df) = keys_count ks df.
Proof.
  induction ks as [|k ks IH]; simpl; intros Hn; [reflexivity|].
  rewrite group_amounts_cons.
  destruct (String.eqb_spec (Category r) k) as [E|E].
  - exfalso. apply Hn. left. symmetry. exact E.
  - rewrite IH; [reflexivity|]. intros H. apply Hn. right. exact H.
Qed.

Lemma keys_count_hit (ks : list string) (r : Row) (df : DataFrame) :
  NoDup ks -> In (Category r) ks ->
  keys_count ks (r :: df) = S (keys_count ks df).
Proof.
  induction ks as [|k ks IH]; simpl; intros Hnd Hin; [contradiction|].
  inversion Hnd as [|? ? Hk Hnd']; subst.
  rewrite group_amounts_cons.
  destruct (String.eqb_spec (Category r) k) as [E|E].
  - rewrite keys_count_skip; [reflexivity|]. rewrite E. exact Hk.
  - destruct Hin as [Hin|Hin]; [congruence|].
    rewrite IH by assumption. simpl. lia.
Qed.

Lemma keys_total_skip (ks : list string) (r : Row) (df : DataFrame) :
  ~ In (Category r) ks -> keys_total ks (r :: df) == keys_total ks df.
Proof.
  induction ks as [|k ks IH]; simpl; intros Hn; [reflexivity|].
  rewrite group_amounts_cons.
  destruct (String.eqb_spec (Category r) k) as [E|E].
  - exfalso. apply Hn. left. symmetry. exact E.
  - rewrite IH; [reflexivity|]. intros H. apply Hn. right. exact H.
Qed.

Lemma keys_total_hit (ks : list string) (r : Row) (df : DataFrame) :
  NoDup ks -> In (Category r) ks ->
  keys_total ks (r :: df) == Amount r + keys_total ks df.
Proof.
  induction ks as [|k ks IH]; simpl; intros Hnd Hin; [contradiction|].
  inversion Hnd as [|? ? Hk Hnd']; subst.
  rewrite group_amounts_cons.
  destruct (String.eqb_spec (Category r) k) as [E|E].
  - rewrite keys_total_skip by (rewrite E; exact Hk).
    simpl. ring.
  - destruct Hin as [Hin|Hin]; [congruence|].
    rewrite IH by assumption. ring.
Qed.

Lemma keys_count_cover (ks : list string) (df : DataFrame) :
  NoDup ks -> (forall c, In c (category_column df) -> In c ks) ->
  keys_count ks df = List.length df.
Proof.
  intros Hnd. induction df as [|r df IH]; intros Hcov.
  - clear Hnd Hcov. induction ks as [|k ks IHk]; simpl; [reflexivity|].
    rewrite IHk. reflexivity.
  - rewrite keys_count_hit; [|exact Hnd|apply Hcov; left; reflexivity].
    simpl. f_equal. apply IH. intros c Hc. apply Hcov. right. exact Hc.
Qed.

Lemma keys_total_cover (ks : list string) (df : DataFrame) :
  NoDup ks -> (forall c, In c (category_column df) -> In c ks) ->
  keys_total ks df == series_sum (amounts df).
Proof.
  intros Hnd. induction df as [|r df IH]; intros Hcov.
  - clear Hnd Hcov. induction ks as [|k ks IHk]; simpl; [reflexivity|].
    simpl in IHk. rewrite IHk. reflexivity.
  - rewrite keys_total_hit; [|exact Hnd|apply Hcov; left; reflexivity].
    simpl. rewrite IH; [reflexivity|].
    intros c Hc. apply Hcov. right. exact Hc.
Qed.

(** ** Claims on the analysis *)

(** C1, as the script behaves: on the empty frame the analysis raises
    nothing; it returns a count of 0, a total of 0, NaN for the mean, the
    maximum and the minimum, and no category row. *)
Theorem analyze_empty :
  analyze [] =
  inr ({| Total_Transactions := 0;
          Total_Amount := Num 0;
          Average_Amount := NaN;
          Highest_Sale := NaN;
          Lowest_Sale := NaN |}, []).
Proof. reflexivity. Qed.

(** C1, as the claim has it, fails: the analysis of the empty frame is not
    an [InputError]. *)
Lemma analyze_empty_not_InputError : analyze [] <> inl InputError.
Proof. discriminate. Qed.

(** C3: the number of rows of the frame is the sum of the group counts. *)
Theorem count_is_sum_of_category_counts (df : DataFrame) :
  Total_Transactions (summary df) = sum_counts (category_totals df).
Proof.
  unfold category_totals. rewrite sum_counts_keys. simpl.
  symmetry. apply keys_count_cover.
  - apply sorted_NoDup, group_keys_sorted.
  - intros c Hc. apply group_keys_In. exact Hc.
Qed.

(** C4: over exact amounts, the total of the frame is the sum of the group
    totals. *)
Theorem total_is_sum_of_category_totals (df : DataFrame) :
  float_eq (Total_Amount (summary df)) (sum_totals (category_totals df)).
Proof.
  unfold category_totals. rewrite sum_totals_keys. simpl.
  symmetry. apply keys_total_cover.
  - apply sorted_NoDup, group_keys_sorted.
  - intros c Hc. apply group_keys_In. exact Hc.
Qed.

(** C6: the rows of [category_totals] follow one fixed enumeration of the
    categories, the ascending one: whatever strictly ascending list
    enumerates the categories the frame may use, the rows are the
    categories of that list that occur in the frame, in the order of the
    list. *)
Theorem category_totals_order (universe : list string) (df : DataFrame) :
  StronglySorted string_lt universe ->
  (forall r, In r df -> In (Category r) universe) ->
  map cat (category_totals df) = filter (has_category df) universe.
Proof.
  intros Hs Hcov.
  unfold category_totals. rewrite map_map. simpl. rewrite map_id.
  apply sorted_unique.
  - apply group_keys_sorted.
  - apply filter_sorted. exact Hs.
  - intros x. rewrite group_keys_In, filter_In, has_category_In.
    split; [|tauto].
    intros Hx. split; [|exact Hx].
    unfold category_column in Hx. apply in_map_iff in Hx.
    destruct Hx as [r [<- Hr]]. apply Hcov. exact Hr.
Qed.

(** ** Bounds on the reductions *)

Lemma fold_left_Qmax_init (l : list Q) : forall a, a <= fold_left Qmax l a.
Proof.
  induction l as [|x l IH]; simpl; intros a.
  - apply Qle_refl.
  - eapply Qle_trans; [apply Q.le_max_l|apply IH].
Qed.

Lemma fold_left_Qmax_In (l : list Q) :
  forall a x, In x l -> x <= fold_left Qmax l a.
Proof.
  induction l as [|y l IH]; simpl; intros a x Hx; [contradiction|].
  destruct Hx as [->|Hx].
  - eapply Qle_trans; [apply Q.le_max_r|apply fold_left_Qmax_init].
  - apply IH. exact Hx.
Qed.

Lemma fold_left_Qmin_init (l : list Q) : forall a, fold_left Qmin l a <= a.
Proof.
  induction l as [|x l IH]; simpl; intros a.
  - apply Qle_refl.
  - eapply Qle_trans; [apply IH|apply Q.le_min_l].
Qed.

Lemma fold_left_Qmin_In (l : list Q) :
  forall a x, In x l -> fold_left Qmin l a <= x.
Proof.
  induction l as [|y l IH]; simpl; intros a x Hx; [contradiction|].
  destruct Hx as [->|Hx].
  - eapply Qle_trans; [apply fold_left_Qmin_init|apply Q.le_min_r].
  - apply IH. exact Hx.
Qed.

Lemma inject_len_cons (A : Type) (x : A) (l : list A) :
  inject_Z (Z.of_nat (List.length (x :: l))) == 1 + inject_Z (Z.of_nat (List.length l)).
Proof.
  simpl List.length. rewrite Nat2Z.inj_succ, <- Z.add_1_l, inject_Z_plus.
  reflexivity.
Qed.

Lemma series_sum_upper (hi : Q) (xs : list Q) :
  (forall x, In x xs -> x <= hi) ->
  series_sum xs <= inject_Z (Z.of_nat (List.length xs)) * hi.
Proof.
  induction xs as [|x xs IH]; intros Hb.
  - simpl. rewrite Qmult_0_l. apply Qle_refl.
  - rewrite inject_len_cons. simpl series_sum.
    assert (Hx : x <= hi) by (apply Hb; left; reflexivity).
    assert (Hs : series_sum xs <= inject_Z (Z.of_nat (List.length xs)) * hi)
      by (apply IH; intros y Hy; apply Hb; right; exact Hy).
    rewrite Qmult_plus_distr_l, Qmult_1_l.
    apply Qplus_le_compat; assumption.
Qed.

Lemma series_sum_lower (lo : Q) (xs : list Q) :
  (forall x, In x xs -> lo <= x) ->
  inject_Z (Z.of_nat (List.length xs)) * lo <= series_sum xs.
Proof.
  induction xs as [|x xs IH]; intros Hb.
  - simpl. rewrite Qmult_0_l. apply Qle_refl.
  - rewrite inject_len_cons. simpl series_sum.
    assert (Hx : lo <= x) by (apply Hb; left; reflexivity).
    assert (Hs : inject_Z (Z.of_nat (List.length xs)) * lo <= series_sum xs)
      by (apply IH; intros y Hy; apply Hb; right; exact Hy).
    rewrite Qmult_plus_distr_l, Qmult_1_l.
    apply Qplus_le_compat; assumption.
Qed.

Lemma inject_len_pos (A : Type) (x : A) (l : list A) :
  0 < inject_Z (Z.of_nat (List.length (x :: l))).
Proof.
  rewrite inject_len_cons.
  assert (H : 0 <= inject_Z (Z.of_nat (List.length l))).
  { unfold Qle. simpl. lia. }
  apply Qlt_le_trans with (y := 1 + 0).
  - reflexivity.
  - apply Qplus_le_compat; [apply Qle_refl|exact H].
Qed.

(** On a non-empty series the mean lies between the minimum and the
    maximum. *)
Lemma series_mean_between (x : Q) (xs : list Q) :
  exists mx mu mn,
    series_max (x :: xs) = Num mx /\ series_mean (x :: xs) = Num mu /\
    series_min (x :: xs) = Num mn /\ mn <= mu /\ mu <= mx.
Proof.
  eexists. eexists. eexists.
  split; [reflexivity|]. split; [reflexivity|]. split; [reflexivity|].
  pose proof (inject_len_pos Q x xs) as Hpos.
  split.
  - apply Qle_shift_div_l; [exact Hpos|].
    rewrite Qmult_comm. apply series_sum_lower.
    intros y [<-|Hy].
    + apply fold_left_Qmin_init.
    + apply fold_left_Qmin_In. exact Hy.
  - apply Qle_shift_div_r; [exact Hpos|].
    rewrite Qmult_comm. apply series_sum_upper.
    intros y [<-|Hy].
    + apply fold_left_Qmax_init.
    + apply fold_left_Qmax_In. exact Hy.
Qed.

(** C5, as the script behaves: on a frame with at least one row,
    max >= mean >= min when the statistics are taken over exact amounts,
    that is, up to the rounding of the float64 mean. *)
Theorem max_mean_min_ordered (df : DataFrame) :
  (0 < Total_Transactions (summary df))%nat ->
  exists mx mu mn,
    Highest_Sale (summary df) = Num mx /\
    Average_Amount (summary df) = Num mu /\
    Lowest_Sale (summary df) = Num mn /\
    mn <= mu /\ mu <= mx.
Proof.
  destruct df as [|r df]; simpl; intros Hn; [lia|].
  apply (series_mean_between (Amount r) (amounts df)).
Qed.

Lemma max_mean_min_ordered_witness :
  exists mx mu mn,
    Highest_Sale (summary scenario_table) = Num mx /\
    Average_Amount (summary scenario_table) = Num mu /\
    Lowest_Sale (summary scenario_table) = Num mn /\
    mn <= mu /\ mu <= mx.
Proof.
  apply (max_mean_min_ordered scenario_table). simpl. lia.
Defined.

(** The float64 mean of three sales of 50.08 is the next float above
    50.08, which is their maximum and their minimum. *)
Example three_sales_mean :
  PrimFloat.eqb (mean64 three_sales) (PrimFloat.next_up (cents64 5008)) = true /\
  PrimFloat.eqb (max64 three_sales) (cents64 5008) = true /\
  PrimFloat.eqb (min64 three_sales) (cents64 5008) = true.
Proof. repeat split; vm_compute; reflexivity. Qed.

(** C5, as the claim has it, fails in float64: for three sales of 50.08
    the mean of the summary is above its maximum. *)
Lemma mean_above_max_binary64 :
  ~ (PrimFloat.leb (Average_Amount64 (summary64 three_sales))
                   (Highest_Sale64 (summary64 three_sales)) = true /\
     PrimFloat.leb (Lowest_Sale64 (summary64 three_sales))
                   (Average_Amount64 (summary64 three_sales)) = true).
Proof.
  intros [H _]. vm_compute in H. discriminate H.
Qed.

(** In the same way the mean of three sales of 50.05 is below their
    minimum. *)
Example mean_below_min_binary64 :
  PrimFloat.ltb (mean64 [cents64 5005; cents64 5005; cents64 5005])
                (min64 [cents64 5005; cents64 5005; cents64 5005]) = true.
Proof. vm_compute. reflexivity. Qed.

Lemma group_nonempty (k : string) (df : DataFrame) :
  In k (group_keys (category_column df)) -> group_amounts k df <> [].
Proof.
  rewrite group_keys_In. unfold category_column. rewrite in_map_iff.
  intros [r [E Hr]] Hnil.
  assert (Hin : In (Amount r) (group_amounts k df)).
  { unfold group_amounts, amounts. apply in_map. apply filter_In.
    split; [exact Hr|]. rewrite E. apply String.eqb_refl. }
  rewrite Hnil in Hin. exact Hin.
Qed.

(** C10: on a non-empty frame the mean of the summary is its total over
    its count, and every row of [category_totals] has a positive count and
    a mean that is its sum over its count. *)
Theorem mean_is_total_over_count (df : DataFrame) :
  (df <> [] ->
   exists tot mu,
     Total_Amount (summary df) = Num tot /\
     Average_Amount (summary df) = Num mu /\
     mu == tot / inject_Z (Z.of_nat (Total_Transactions (summary df)))) /\
  (forall row, In row (category_totals df) ->
     (0 < count row)%nat /\
     exists tot mu,
       sum row = Num tot /\ mean row = Num mu /\
       mu == tot / inject_Z (Z.of_nat (count row))).
Proof.
  split.
  - destruct df as [|r df]; [congruence|]. intros _.
    eexists. eexists. split; [reflexivity|]. split; [reflexivity|].
    unfold amounts. simpl. rewrite length_map. reflexivity.
  - intros row Hrow. unfold category_totals in Hrow.
    apply in_map_iff in Hrow. destruct Hrow as [k [<- Hk]].
    apply group_nonempty in Hk.
    destruct (group_amounts k df) as [|x xs] eqn:E; [congruence|].
    split; [simpl; lia|].
    eexists. eexists. split; [reflexivity|]. split; [reflexivity|].
    reflexivity.
Qed.

Lemma mean_is_total_over_count_witness :
  (exists tot mu,
     Total_Amount (summary scenario_table) = Num tot /\
     Average_Amount (summary scenario_table) = Num mu /\
     mu == tot / inject_Z (Z.of_nat (Total_Transactions (summary scenario_table)))) /\
  (0 < count (agg "Books" [100%Q; 200%Q]))%nat /\
  exists tot mu,
    sum (agg "Books" [100; 200]) = Num tot /\
    mean (agg "Books" [100; 200]) = Num mu /\
    mu == tot / inject_Z (Z.of_nat (count (agg "Books" [100; 200]))).
Proof.
  destruct (mean_is_total_over_count scenario_table) as [H1 H2].
  split.
  - apply H1. discriminate.
  - apply H2. simpl. left. reflexivity.
Defined.

Lemma category_totals_order_witness :
  map cat (category_totals scenario_table) =
  filter (has_category scenario_table) ["Books"; "Clothing"; "Electronics"; "Food"]%string.
Proof.
  apply category_totals_order.
  - repeat (constructor; [|repeat (constructor; try reflexivity)]). constructor.
  - intros r Hr. simpl in Hr.
    destruct Hr as [<-|[<-|[<-|[]]]]; simpl; tauto.
Defined.

(** The order is not the order of first occurrence: a frame that meets
    "Food" before "Books" still lists "Books" first. *)
Example category_totals_not_first_seen :
  map cat (category_totals [mkRow 20089%Z "Food" 50; mkRow 20090%Z "Books" 100])
  = ["Books"; "Food"]%string.
Proof. reflexivity. Qed.

(** C2: on the scenario table the statistics, written to two decimals as
    the scenario writes them, are count 3, total 350.00, mean 116.67,
    maximum 200.00 and minimum 50.00, and the category rows are Books
    (2, 300.00, 150.00) and Food (1, 50.00, 50.00), in that order. *)
Theorem scenario_statistics_two_decimals :
  summary_eq (summary_2dp (summary scenario_table))
    {| Total_Transactions := 3; Total_Amount := Num 350;
       Average_Amount := Num (11667 # 100);
       Highest_Sale := Num 200; Lowest_Sale := Num 50 |} /\
  Forall2 category_row_eq (map row_2dp (category_totals scenario_table))
    [ {| cat := "Books"; count := 2; sum := Num 300; mean := Num 150 |};
      {| cat := "Food"; count := 1; sum := Num 50; mean := Num 50 |} ].
Proof.
  split.
  - repeat split; vm_compute; reflexivity.
  - repeat constructor; vm_compute; reflexivity.
Qed.

(** ** The [,.2f] format *)

Lemma uint_digits (u : Decimal.uint) :
  Forall (fun c => is_digit c = true)
         (list_ascii_of_string (NilEmpty.string_of_uint u)).
Proof.
  induction u; simpl; constructor; try reflexivity; assumption.
Qed.

Lemma digits_all (n : N) : Forall (fun c => is_digit c = true) (digits n).
Proof.
  unfold digits.
  destruct (N.to_uint n); simpl;
    (constructor; [reflexivity|]); first [apply uint_digits|constructor].
Qed.

Lemma digits_nonempty (n : N) : digits n <> [].
Proof.
  unfold digits. destruct (N.to_uint n); simpl; discriminate.
Qed.

Lemma digits_one (n : N) :
  (n < 10)%N -> exists c, digits n = [c] /\ is_digit c = true.
Proof.
  intros H. rewrite <- (Nnat.N2Nat.id n).
  assert (Hk : (N.to_nat n < 10)%nat) by lia.
  set (k := N.to_nat n) in *. clearbody k. clear H.
  do 10 (destruct k as [|k]; [eexists; split; reflexivity|]).
  lia.
Qed.

Lemma digit_not_minus (c : ascii) :
  is_digit c = true -> Ascii.eqb c "-"%char = false.
Proof.
  intros H. destruct (Ascii.eqb_spec c "-"%char) as [E|E]; [|reflexivity].
  subst c. vm_compute in H. discriminate H.
Qed.

Lemma digit_not_point (c : ascii) :
  is_digit c = true -> Ascii.eqb c "."%char = false.
Proof.
  intros H. destruct (Ascii.eqb_spec c "."%char) as [E|E]; [|reflexivity].
  subst c. vm_compute in H. discriminate H.
Qed.

Lemma commas_chars (P : ascii -> Prop) (ds : list ascii) :
  P ","%char -> Forall P ds -> forall k, Forall P (commas k ds).
Proof.
  intros Hc. induction 1 as [|d ds Hd Hds IH]; intros k; simpl.
  - constructor.
  - destruct k; repeat constructor; auto.
Qed.

Lemma grouped_commas (ds : list ascii) :
  Forall (fun c => is_digit c = true) ds ->
  forall k, (k <= 3)%nat -> ds <> [] \/ (k < 3)%nat ->
  grouped k (commas k ds) = true.
Proof.
  induction 1 as [|d ds Hd Hds IH]; intros k Hk Hne; simpl.
  - destruct Hne as [Hne|Hlt]; [congruence|].
    apply Nat.ltb_lt. exact Hlt.
  - destruct k as [|k]; simpl.
    + rewrite Hd. simpl. apply IH; [lia|right; lia].
    + rewrite Hd. simpl. apply IH; [lia|right; lia].
Qed.

(** Every number comes out of [,.2f] with thousands separators and two
    decimals. *)
Lemma format_2f_shape (q : Q) : thousands_2dp (format_2f (Num q)) = true.
Proof.
  unfold format_2f, thousands_2dp.
  set (h := Z.to_N (Z.abs (rint (q * 100)))).
  rewrite list_ascii_of_string_of_list_ascii.
  destruct (digits_one ((h / 10) mod 10)) as [d1 [E1 D1]];
    [apply N.mod_lt; discriminate|].
  destruct (digits_one (h mod 10)) as [d2 [E2 D2]];
    [apply N.mod_lt; discriminate|].
  rewrite E1, E2. simpl app.
  set (ip := digits (h / 100)).
  assert (Hip : Forall (fun c => is_digit c = true) (rev ip))
    by (apply Forall_rev, digits_all).
  assert (Hne : rev ip <> []).
  { intros Hnil. apply (digits_nonempty (h / 100)).
    fold ip. rewrite <- (rev_involutive ip), Hnil. reflexivity. }
  set (rest := group_thousands ip ++ ["."%char; d1; d2]).
  assert (Hrev : rev rest = d2 :: d1 :: "."%char :: commas 3 (rev ip)).
  { unfold rest, group_thousands. rewrite rev_app_distr, rev_involutive.
    reflexivity. }
  assert (Hbody :
    match rest with
    | c :: r => if Ascii.eqb c "-"%char then r else rest
    | [] => rest
    end = rest).
  { assert (Hall : Forall (fun c => Ascii.eqb c "-"%char = false) rest).
    { unfold rest, group_thousands. apply Forall_app. split.
      - apply Forall_rev. apply commas_chars; [reflexivity|].
        eapply Forall_impl; [|exact Hip]. apply digit_not_minus.
      - repeat constructor; auto using digit_not_minus. }
    destruct rest as [|c r]; [reflexivity|].
    inversion Hall as [|? ? Hc _]; subst. rewrite Hc. reflexivity. }
  assert (Hgoal :
    match rev rest with
    | d2 :: d1 :: p :: ip0 =>
        is_digit d2 && is_digit d1 && Ascii.eqb p "."%char && grouped 3 ip0
    | _ => false
    end = true).
  { rewrite Hrev, D1, D2. simpl.
    apply grouped_commas; [exact Hip|lia|left; exact Hne]. }
  destruct (Qcompare q 0); simpl app; fold rest.
  - rewrite Hbody. exact Hgoal.
  - exact Hgoal.
  - rewrite Hbody. exact Hgoal.
Qed.

(** A plain integer is not in that format. *)
Lemma str_int_shape (m : nat) :
  thousands_2dp (cell_text (IntCell (Z.of_nat m))) = false.
Proof.
  assert (E : cell_text (IntCell (Z.of_nat m))
              = string_of_list_ascii (digits (Z.to_N (Z.of_nat m)))).
  { destruct m; reflexivity. }
  rewrite E. unfold thousands_2dp.
  rewrite list_ascii_of_string_of_list_ascii.
  set (ds := digits (Z.to_N (Z.of_nat m))).
  assert (Hds : Forall (fun c => is_digit c = true) ds) by apply digits_all.
  assert (Hbody :
    match ds with
    | c :: r => if Ascii.eqb c "-"%char then r else ds
    | [] => ds
    end = ds).
  { destruct ds as [|c r]; [reflexivity|].
    inversion Hds as [|? ? Hc _]; subst.
    rewrite (digit_not_minus c Hc). reflexivity. }
  rewrite Hbody.
  apply Forall_rev in Hds.
  destruct (rev ds) as [|d2 [|d1 [|p ip]]]; try reflexivity.
  inversion Hds as [|? ? _ H1]; subst.
  inversion H1 as [|? ? _ H2]; subst.
  inversion H2 as [|? ? Hp _]; subst.
  rewrite (digit_not_point p Hp).
  destruct (is_digit d2), (is_digit d1); reflexivity.
Qed.

(** C7, as the script behaves: in the summary table of a non-empty frame
    the four float statistics are strings with thousands separators and
    two decimals, and the transaction count is the integer itself, whose
    text is not in that format. *)
Theorem data_summary_cells (df : DataFrame) :
  df <> [] ->
  exists total average highest lowest : string,
    data_summary (summary df) =
      [ ("Total Transactions"%string, IntCell (Z.of_nat (List.length df)));
        ("Total Amount"%string, StrCell total);
        ("Average Amount"%string, StrCell average);
        ("Highest Sale"%string, StrCell highest);
        ("Lowest Sale"%string, StrCell lowest) ] /\
    thousands_2dp total = true /\ thousands_2dp average = true /\
    thousands_2dp highest = true /\ thousands_2dp lowest = true /\
    thousands_2dp (cell_text (IntCell (Z.of_nat (List.length df)))) = false.
Proof.
  destruct df as [|r df]; [congruence|]. intros _.
  do 4 eexists. split; [reflexivity|].
  repeat split; try apply format_2f_shape.
  apply str_int_shape.
Qed.

Lemma data_summary_cells_witness :
  exists total average highest lowest : string,
    data_summary (summary scenario_table) =
      [ ("Total Transactions"%string, IntCell 3);
        ("Total Amount"%string, StrCell total);
        ("Average Amount"%string, StrCell average);
        ("Highest Sale"%string, StrCell highest);
        ("Lowest Sale"%string, StrCell lowest) ] /\
    thousands_2dp total = true /\ thousands_2dp average = true /\
    thousands_2dp highest = true /\ thousands_2dp lowest = true /\
    thousands_2dp (cell_text (IntCell 3)) = false.
Proof.
  apply (data_summary_cells scenario_table). discriminate.
Defined.

(** C7, as the claim has it, fails: the transaction count of the scenario
    table is drawn as "3", with no separator and no decimals. *)
Lemma count_cell_not_formatted :
  ~ Forall (fun kv : string * cell => thousands_2dp (cell_text (snd kv)) = true)
           (data_summary (summary scenario_table)).
Proof.
  intros H. inversion H as [|? ? Hc _]; subst.
  vm_compute in Hc. discriminate Hc.
Qed.

(** ** Rounding *)

Lemma rint_floor (x : Q) : rint x = Qfloor x \/ rint x = (Qfloor x + 1)%Z.
Proof.
  unfold rint. destruct (Qcompare _ _); auto.
  destruct (Z.even _); auto.
Qed.

Lemma rint_lower (a : Z) (x : Q) : inject_Z a <= x -> (a <= rint x)%Z.
Proof.
  intros H. apply Qfloor_resp_le in H. rewrite Qfloor_Z in H.
  destruct (rint_floor x) as [E|E]; rewrite E; lia.
Qed.

Lemma rint_upper (b : Z) (x : Q) : x <= inject_Z b -> (rint x <= b)%Z.
Proof.
  intros H.
  assert (Hf : (Qfloor x <= b)%Z).
  { apply Qfloor_resp_le in H. rewrite Qfloor_Z in H. exact H. }
  assert (Hup : inject_Z (Qfloor x) < inject_Z b -> (Qfloor x + 1 <= b)%Z).
  { intros Hlt. rewrite <- Zlt_Qlt in Hlt. lia. }
  unfold rint.
  destruct (Qcompare (x - inject_Z (Qfloor x)) (1 # 2)) eqn:E.
  - destruct (Z.even (Qfloor x)); [exact Hf|].
    apply Hup. apply Qeq_alt in E. lra.
  - exact Hf.
  - apply Hup. apply Qgt_alt in E. lra.
Qed.

(** An amount in [50, 1000) rounds to a number of cents in
    [50, 1000]. *)
Lemma round2_range (x : Q) :
  50 <= x -> x < 1000 ->
  let a := inject_Z (rint (x * 100)) / 100 in
  0 <= a /\ 50 <= a /\ a <= 1000 /\ exists cents : Z, a == cents # 100.
Proof.
  intros Hlo Hhi a.
  assert (H1 : (5000 <= rint (x * 100))%Z).
  { apply rint_lower. change (inject_Z 5000) with (50 * 100).
    apply Qmult_le_compat_r; [exact Hlo|discriminate]. }
  assert (H2 : (rint (x * 100) <= 100000)%Z).
  { apply rint_upper. change (inject_Z 100000) with (1000 * 100).
    apply Qmult_le_compat_r; [apply Qlt_le_weak; exact Hhi|discriminate]. }
  assert (Ea : a == rint (x * 100) # 100).
  { unfold a, Qdiv, Qeq. simpl. lia. }
  split; [|split; [|split]].
  - rewrite Ea. unfold Qle. simpl. lia.
  - rewrite Ea. unfold Qle. simpl. lia.
  - rewrite Ea. unfold Qle. simpl. lia.
  - exists (rint (x * 100)). exact Ea.
Qed.

(** ** The sample dataset *)

Section DataSourceProperties.

Context {RS : RandomState}.

Lemma repeatM_ok (A : Type) (P : A -> Prop) (m : M A) :
  (forall s, exists x s', m s = Some (x, s') /\ P x) ->
  forall size s, exists xs s',
    repeatM size m s = Some (xs, s') /\ List.length xs = size /\ Forall P xs.
Proof.
  intros Hm. induction size as [|size IH]; intros s; simpl.
  - exists [], s. repeat split. constructor.
  - destruct (Hm s) as (x & s1 & E1 & Hx).
    destruct (IH s1) as (xs & s2 & E2 & Hlen & Hall).
    exists (x :: xs), s2. unfold bind. rewrite E1, E2.
    repeat split; [simpl; congruence|constructor; assumption].
Qed.

Lemma np_random_choice_ok (A : Type) (a : list A) (size : nat) (s : rng) :
  a <> [] ->
  exists xs s',
    np_random_choice a size s = Some (xs, s') /\
    List.length xs = size /\ Forall (fun x => In x a) xs.
Proof.
  intros Hne. unfold np_random_choice. apply repeatM_ok. clear s.
  intros s.
  assert (Hpos : (0 < List.length a)%nat) by (destruct a; [congruence|simpl; lia]).
  pose proof (random_below_lt (List.length a) s Hpos) as Hlt.
  destruct (random_below (List.length a) s) as [i s'] eqn:E. simpl in Hlt.
  destruct (nth_error a i) as [x|] eqn:En.
  - exists x, s'. split; [reflexivity|]. eapply nth_error_In. exact En.
  - apply nth_error_None in En. lia.
Qed.

Lemma np_random_uniform_ok (size : nat) (s : rng) :
  exists xs s',
    np_random_uniform 50 1000 size s = Some (xs, s') /\
    List.length xs = size /\ Forall (fun x => 50 <= x /\ x < 1000) xs.
Proof.
  unfold np_random_uniform. apply repeatM_ok. clear s.
  intros s. pose proof (random_sample_range s) as [H0 H1].
  destruct (random_sample s) as [u s'] eqn:E. simpl in H0, H1.
  exists (50 + (1000 - 50) * u), s'. split; [reflexivity|].
  split.
  - rewrite <- (Qplus_0_r 50) at 1. apply Qplus_le_r.
    apply Qmult_le_0_compat; [discriminate|exact H0].
  - assert (E1000 : 1000 == 50 + (1000 - 50) * 1) by reflexivity.
    rewrite E1000 at 2. apply Qplus_lt_r.
    apply Qmult_lt_l; [reflexivity|exact H1].
Qed.

Lemma np_round2_ok (xs : list Q) :
  Forall (fun x => 50 <= x /\ x < 1000) xs ->
  Forall (fun a => 0 <= a /\ 50 <= a /\ a <= 1000 /\
                   exists cents : Z, a == cents # 100) (np_round2 xs).
Proof.
  induction 1 as [|x xs [Hlo Hhi] _ IH]; simpl; constructor.
  - exact (round2_range x Hlo Hhi).
  - exact IH.
Qed.

(** The 100 days from 2025-01-01 end on 2025-04-10. *)
Example date_range_end :
  (days_from_civil 2025 1 1 + Z.of_nat 100 - 1 = days_from_civil 2025 4 10)%Z.
Proof. reflexivity. Qed.

Lemma date_range_In (start : date) (periods : nat) (d : date) :
  In d (date_range start periods) ->
  (start <= d < start + Z.of_nat periods)%Z.
Proof.
  unfold date_range. rewrite in_map_iff. intros [i [<- Hi]].
  apply in_seq in Hi. lia.
Qed.

Lemma frame_ok (Pd : date -> Prop) (Pc : string -> Prop) (Px : Q -> Prop) :
  forall ds cs xs,
    List.length ds = List.length cs -> List.length cs = List.length xs ->
    Forall Pd ds -> Forall Pc cs -> Forall Px xs ->
    exists rows,
      frame ds cs xs = Some rows /\ List.length rows = List.length ds /\
      Forall (fun r => Pd (Date r) /\ Pc (Category r) /\ Px (Amount r)) rows.
Proof.
  induction ds as [|d ds IH]; intros [|c cs] [|x xs] L1 L2 Hd Hc Hx;
    simpl in *; try discriminate.
  - exists []. repeat split. constructor.
  - inversion Hd; inversion Hc; inversion Hx; subst.
    destruct (IH cs xs) as (rows & E & Hlen & Hall); try assumption; try lia.
    rewrite E. exists (mkRow d c x :: rows).
    repeat split; [simpl; congruence|].
    constructor; [simpl; auto|exact Hall].
Qed.

(** The data source returns a frame of [size] rows, each in range,
    whatever the generator was before the call. *)
Lemma sample_dataset_ok (sd : Z) (start : date) (periods size : nat) (s0 : rng) :
  (0 < periods)%nat ->
  exists t s',
    sample_dataset sd start periods size s0 = Some (t, s') /\
    List.length t = size /\ Forall (row_in_range start periods) t.
Proof.
  intros Hp. unfold sample_dataset, bind, np_random_seed.
  destruct (np_random_choice_ok date (date_range start periods) size (seed sd))
    as (ds & s1 & E1 & L1 & F1).
  { unfold date_range. destruct periods; [lia|simpl; discriminate]. }
  destruct (np_random_choice_ok string categories size s1)
    as (cs & s2 & E2 & L2 & F2); [discriminate|].
  destruct (np_random_uniform_ok size s2) as (xs & s3 & E3 & L3 & F3).
  rewrite E1, E2, E3.
  assert (La : List.length cs = List.length (np_round2 xs))
    by (unfold np_round2; rewrite length_map; congruence).
  assert (Ld : List.length ds = List.length cs) by congruence.
  destruct (frame_ok _ _ _ ds cs (np_round2 xs) Ld La F1 F2 (np_round2_ok xs F3))
    as (rows & E & Hlen & Hall).
  rewrite E. exists rows, s3. split; [reflexivity|]. split; [congruence|].
  eapply Forall_impl; [|exact Hall].
  intros r (Hd & Hc & H0 & H50 & H1000 & Hcents).
  unfold row_in_range. repeat split; try assumption;
    apply date_range_In in Hd; lia.
Qed.

(** The data source does not read the state the generator had before the
    call. *)
Lemma sample_dataset_seeded (sd : Z) (start : date) (periods size : nat)
      (s1 s2 : rng) :
  sample_dataset sd start periods size s1 = sample_dataset sd start periods size s2.
Proof. reflexivity. Qed.

(** C8: two runs of the data source with the same seed and the same date
    range both return a frame, and the two frames have the same number of
    rows and the same set of categories, whatever state the generator was
    in at the start of each run. *)
Theorem data_source_deterministic (sd : Z) (start : date) (periods size : nat)
        (s1 s2 : rng) :
  (0 < periods)%nat ->
  exists t1 t2 s1' s2',
    sample_dataset sd start periods size s1 = Some (t1, s1') /\
    sample_dataset sd start periods size s2 = Some (t2, s2') /\
    List.length t1 = List.length t2 /\
    group_keys (category_column t1) = group_keys (category_column t2).
Proof.
  intros Hp.
  destruct (sample_dataset_ok sd start periods size s1 Hp) as (t & s' & E & _).
  exists t, t, s', s'. rewrite <- (sample_dataset_seeded sd start periods size s1 s2).
  repeat split; exact E.
Qed.

(** C9: the script's data source returns 120 rows; each has an amount that
    is non-negative, lies between 50 and 1000 and is a whole number of
    cents, a category of the fixed list, and a date among the 100 days
    from 2025-01-01. *)
Theorem df_rows_in_range (s0 : rng) :
  exists t s',
    df s0 = Some (t, s') /\ List.length t = 120%nat /\
    Forall (row_in_range (days_from_civil 2025 1 1) 100) t.
Proof.
  apply sample_dataset_ok. lia.
Qed.

End DataSourceProperties.

(** ** The data source on a concrete generator *)

Lemma lcg_sample_range (s : Z) :
  0 <= fst (lcg_sample s) /\ fst (lcg_sample s) < 1.
Proof.
  unfold lcg_sample. simpl.
  pose proof (Z.mod_pos_bound (lcg_next s) 1000 eq_refl) as H.
  unfold Qle, Qlt. simpl. lia.
Qed.

Lemma lcg_below_lt (n : nat) (s : Z) :
  (0 < n)%nat -> (fst (lcg_below n s) < n)%nat.
Proof.
  intros Hn. unfold lcg_below. simpl.
  pose proof (Z.mod_pos_bound (lcg_next s / 65536) (Z.of_nat n)) as H.
  lia.
Qed.

#[local] Instance lcg_state : RandomState := {|
  rng := Z;
  seed := fun n => n;
  random_sample := lcg_sample;
  random_below := lcg_below;
  random_sample_range := lcg_sample_range;
  random_below_lt := lcg_below_lt
|}.

Lemma data_source_deterministic_witness :
  exists t1 t2 s1' s2',
    sample_dataset (RS := lcg_state) 10 (days_from_civil 2025 1 1) 100 120 1%Z
      = Some (t1, s1') /\
    sample_dataset (RS := lcg_state) 10 (days_from_civil 2025 1 1) 100 120 2%Z
      = Some (t2, s2') /\
    List.length t1 = List.length t2 /\
    group_keys (category_column t1) = group_keys (category_column t2).
Proof.
  apply (data_source_deterministic (RS := lcg_state)). lia.
Defined.

(** The first rows the script's data source draws from this generator. *)
Example df_runs :
  option_map (fun p => fst p) (sample_dataset (RS := lcg_state) 10 20089%Z 100 3 0%Z)
  = Some [ mkRow 20132%Z "Books" (13835 # 100);
           mkRow 20103%Z "Food" (72830 # 100);
           mkRow 20134%Z "Books" (12125 # 100) ].
Proof. vm_compute. reflexivity. Qed.

(** * Further properties of the analysis *)

(** ** What does not depend on the order of the rows *)

Lemma Qmax_choice (a b : Q) : Qmax a b = a \/ Qmax a b = b.
Proof.
  unfold Qmax, GenericMinMax.gmax. destruct (Qcompare a b); auto.
Qed.

Lemma Qmin_choice (a b : Q) : Qmin a b = a \/ Qmin a b = b.
Proof.
  unfold Qmin, GenericMinMax.gmin. destruct (Qcompare a b); auto.
Qed.

Lemma fold_left_Qmax_mem (l : list Q) :
  forall a, In (fold_left Qmax l a) (a :: l).
Proof.
  induction l as [|x l IH]; intros a; simpl.
  - left. reflexivity.
  - destruct (IH (Qmax a x)) as [E|H].
    + rewrite <- E. destruct (Qmax_choice a x) as [E1 | E1]; rewrite E1; auto.
    + right. right. exact H.
Qed.

Lemma fold_left_Qmin_mem (l : list Q) :
  forall a, In (fold_left Qmin l a) (a :: l).
Proof.
  induction l as [|x l IH]; intros a; simpl.
  - left. reflexivity.
  - destruct (IH (Qmin a x)) as [E|H].
    + rewrite <- E. destruct (Qmin_choice a x) as [E1 | E1]; rewrite E1; auto.
    + right. right. exact H.
Qed.

(** The maximum of a non-empty series is one of its values and bounds
    them all; so for the minimum. *)
Lemma series_max_spec (xs : list Q) :
  xs <> [] ->
  exists m, series_max xs = Num m /\ In m xs /\ forall x, In x xs -> x <= m.
Proof.
  destruct xs as [|a l]; [congruence|]. intros _.
  exists (fold_left Qmax l a). split; [reflexivity|]. split.
  - apply fold_left_Qmax_mem.
  - intros x [<-|Hx]; [apply fold_left_Qmax_init|apply fold_left_Qmax_In; exact Hx].
Qed.

Lemma series_min_spec (xs : list Q) :
  xs <> [] ->
  exists m, series_min xs = Num m /\ In m xs /\ forall x, In x xs -> m <= x.
Proof.
  destruct xs as [|a l]; [congruence|]. intros _.
  exists (fold_left Qmin l a). split; [reflexivity|]. split.
  - apply fold_left_Qmin_mem.
  - intros x [<-|Hx]; [apply fold_left_Qmin_init|apply fold_left_Qmin_In; exact Hx].
Qed.

Lemma perm_nonempty (A : Type) (xs ys : list A) :
  Permutation xs ys -> xs <> [] -> ys <> [].
Proof.
  intros HP Hne E. subst ys. apply Permutation_sym, Permutation_nil in HP.
  congruence.
Qed.

Lemma series_max_perm (xs ys : list Q) :
  Permutation xs ys -> float_eq (series_max xs) (series_max ys).
Proof.
  intros HP. destruct xs as [|a l].
  - apply Permutation_nil in HP. subst ys. exact I.
  - assert (Hx : a :: l <> []) by discriminate.
    pose proof (perm_nonempty _ _ _ HP Hx) as Hy.
    destruct (series_max_spec _ Hx) as (m1 & E1 & I1 & B1).
    destruct (series_max_spec _ Hy) as (m2 & E2 & I2 & B2).
    rewrite E1, E2. simpl. apply Qle_antisym.
    + apply B2. eapply Permutation_in; [exact HP|exact I1].
    + apply B1. eapply Permutation_in; [apply Permutation_sym; exact HP|exact I2].
Qed.

Lemma series_min_perm (xs ys : list Q) :
  Permutation xs ys -> float_eq (series_min xs) (series_min ys).
Proof.
  intros HP. destruct xs as [|a l].
  - apply Permutation_nil in HP. subst ys. exact I.
  - assert (Hx : a :: l <> []) by discriminate.
    pose proof (perm_nonempty _ _ _ HP Hx) as Hy.
    destruct (series_min_spec _ Hx) as (m1 & E1 & I1 & B1).
    destruct (series_min_spec _ Hy) as (m2 & E2 & I2 & B2).
    rewrite E1, E2. simpl. apply Qle_antisym.
    + apply B1. eapply Permutation_in; [apply Permutation_sym; exact HP|exact I2].
    + apply B2. eapply Permutation_in; [exact HP|exact I1].
Qed.

Lemma filter_perm (A : Type) (f : A -> bool) (xs ys : list A) :
  Permutation xs ys -> Permutation (filter f xs) (filter f ys).
Proof.
  induction 1 as [|x xs ys _ IH|x y xs|xs ys zs _ IH1 _ IH2]; simpl.
  - constructor.
  - destruct (f x); [constructor|]; exact IH.
  - destruct (f x), (f y); try apply Permutation_refl.
    apply perm_swap.
  - eapply Permutation_trans; eassumption.
Qed.

(** X1: the count, the highest and the lowest sale of a frame do not
    depend on the order of its rows. *)
Theorem count_and_extremes_perm (df df' : DataFrame) :
  Permutation df df' ->
  Total_Transactions (summary df) = Total_Transactions (summary df') /\
  float_eq (Highest_Sale (summary df)) (Highest_Sale (summary df')) /\
  float_eq (Lowest_Sale (summary df)) (Lowest_Sale (summary df')).
Proof.
  intros HP.
  assert (HA : Permutation (amounts df) (amounts df'))
    by (apply Permutation_map; exact HP).
  simpl. split; [apply Permutation_length; exact HP|].
  split; [apply series_max_perm; exact HA|apply series_min_perm; exact HA].
Qed.

Lemma count_and_extremes_perm_witness :
  Total_Transactions (summary scenario_table)
    = Total_Transactions (summary (rev scenario_table)) /\
  float_eq (Highest_Sale (summary scenario_table))
           (Highest_Sale (summary (rev scenario_table))) /\
  float_eq (Lowest_Sale (summary scenario_table))
           (Lowest_Sale (summary (rev scenario_table))).
Proof.
  apply count_and_extremes_perm. apply Permutation_rev.
Defined.

(** The float64 total does depend on the order: the same three amounts
    added in the opposite order give another float. *)
Example sum64_depends_on_order :
  PrimFloat.eqb (sum64 [cents64 28811; cents64 95523; cents64 30805])
                (sum64 [cents64 30805; cents64 95523; cents64 28811]) = false.
Proof. vm_compute. reflexivity. Qed.

(** X2: neither do the categories of the category table, their order and
    their counts. *)
Theorem category_counts_perm (df df' : DataFrame) :
  Permutation df df' ->
  map cat (category_totals df) = map cat (category_totals df') /\
  map count (category_totals df) = map count (category_totals df').
Proof.
  intros HP.
  assert (HK : group_keys (category_column df) = group_keys (category_column df')).
  { apply sorted_unique; try apply group_keys_sorted.
    intros x. rewrite !group_keys_In. unfold category_column.
    split; apply Permutation_in; apply Permutation_map;
      [exact HP|apply Permutation_sym; exact HP]. }
  unfold category_totals. rewrite !map_map. simpl. rewrite <- HK.
  split; [reflexivity|].
  apply map_ext. intros k. unfold group_amounts, amounts.
  rewrite !length_map. apply Permutation_length, filter_perm. exact HP.
Qed.

Lemma category_counts_perm_witness :
  map cat (category_totals scenario_table)
    = map cat (category_totals (rev scenario_table)) /\
  map count (category_totals scenario_table)
    = map count (category_totals (rev scenario_table)).
Proof.
  apply category_counts_perm. apply Permutation_rev.
Defined.

(** X3: on a non-empty frame the highest sale is the amount of one of the
    rows and no row has a larger one; the lowest sale is the amount of one
    of the rows and no row has a smaller one. *)
Theorem extremes_attained (df : DataFrame) :
  df <> [] ->
  (exists r, In r df /\ Highest_Sale (summary df) = Num (Amount r) /\
             forall r', In r' df -> Amount r' <= Amount r) /\
  (exists r, In r df /\ Lowest_Sale (summary df) = Num (Amount r) /\
             forall r', In r' df -> Amount r <= Amount r').
Proof.
  intros Hne.
  assert (Ha : amounts df <> []) by (destruct df; [congruence|discriminate]).
  split.
  - destruct (series_max_spec _ Ha) as (m & E & Hin & Hb).
    unfold amounts in Hin. apply in_map_iff in Hin. destruct Hin as (r & <- & Hr).
    exists r. split; [exact Hr|]. split; [exact E|].
    intros r' Hr'. apply Hb. unfold amounts. apply in_map. exact Hr'.
  - destruct (series_min_spec _ Ha) as (m & E & Hin & Hb).
    unfold amounts in Hin. apply in_map_iff in Hin. destruct Hin as (r & <- & Hr).
    exists r. split; [exact Hr|]. split; [exact E|].
    intros r' Hr'. apply Hb. unfold amounts. apply in_map. exact Hr'.
Qed.

Lemma extremes_attained_witness :
  (exists r, In r scenario_table /\
             Highest_Sale (summary scenario_table) = Num (Amount r) /\
             forall r', In r' scenario_table -> Amount r' <= Amount r) /\
  (exists r, In r scenario_table /\
             Lowest_Sale (summary scenario_table) = Num (Amount r) /\
             forall r', In r' scenario_table -> Amount r <= Amount r').
Proof.
  apply (extremes_attained scenario_table). discriminate.
Defined.

(** ** One row per category *)

Lemma category_totals_keys (df : DataFrame) :
  map cat (category_totals df) = group_keys (category_column df).
Proof.
  unfold category_totals. rewrite map_map. simpl. apply map_id.
Qed.

(** X4: [category_totals] has exactly one row for every category that
    occurs in the frame and none for any other; the count of a row is the
    number of rows of the frame with its category. *)
Theorem one_row_per_category (df : DataFrame) :
  NoDup (map cat (category_totals df)) /\
  (forall c, In c (map cat (category_totals df)) <-> In c (category_column df)) /\
  (forall row, In row (category_totals df) ->
     count row =
     List.length (filter (fun r => String.eqb (Category r) (cat row)) df)).
Proof.
  rewrite category_totals_keys. split; [|split].
  - apply sorted_NoDup, group_keys_sorted.
  - intros c. apply group_keys_In.
  - intros row Hrow. unfold category_totals in Hrow.
    apply in_map_iff in Hrow. destruct Hrow as (k & <- & _).
    simpl. unfold group_amounts, amounts. apply length_map.
Qed.

(** X5: there are no more category rows than rows in the frame, and there
    is none only for the empty frame. *)
Theorem category_totals_length (df : DataFrame) :
  (List.length (category_totals df) <= List.length df)%nat /\
  (category_totals df = [] <-> df = []).
Proof.
  assert (Hlen : List.length (category_totals df)
                 = List.length (group_keys (category_column df))).
  { rewrite <- category_totals_keys. symmetry. apply length_map. }
  split.
  - rewrite Hlen. rewrite <- (length_map Category df).
    apply NoDup_incl_length.
    + apply sorted_NoDup, group_keys_sorted.
    + intros c Hc. exact (proj1 (group_keys_In (category_column df) c) Hc).
  - split.
    + intros E. destruct df as [|r df]; [reflexivity|]. exfalso.
      assert (Hin : In (Category r) (group_keys (category_column (r :: df))))
        by (apply group_keys_In; left; reflexivity).
      rewrite <- category_totals_keys, E in Hin. exact Hin.
    + intros ->. reflexivity.
Qed.

Lemma group_amounts_incl (k : string) (df : DataFrame) (x : Q) :
  In x (group_amounts k df) -> In x (amounts df).
Proof.
  unfold group_amounts, amounts. rewrite !in_map_iff.
  intros (r & E & Hr). apply filter_In in Hr. exists r. tauto.
Qed.

Lemma insert_key_same (c : string) : insert_key c [c] = [c].
Proof.
  simpl. destruct (String.compare c c) eqn:E; try reflexivity;
    exfalso; apply (string_lt_irrefl c).
  - exact E.
  - apply string_gt_lt. exact E.
Qed.

Lemma group_keys_constant (c : string) (col : list string) :
  col <> [] -> (forall x, In x col -> x = c) -> group_keys col = [c].
Proof.
  induction col as [|x col IH]; intros Hne Hall; [congruence|].
  simpl. rewrite (Hall x (or_introl eq_refl)).
  destruct col as [|y col]; [reflexivity|].
  rewrite IH; [apply insert_key_same|discriminate|].
  intros z Hz. apply Hall. right. exact Hz.
Qed.

(** X7: when every row of a non-empty frame has the same category, the
    category table has a single row, for that category, and its count is
    the count of the summary. *)
Theorem single_category_row (c : string) (df : DataFrame) :
  df <> [] -> (forall r, In r df -> Category r = c) ->
  map cat (category_totals df) = [c] /\
  map count (category_totals df) = [Total_Transactions (summary df)].
Proof.
  intros Hne Hall. unfold category_totals.
  rewrite (group_keys_constant c).
  - simpl. split; [reflexivity|]. f_equal.
    unfold group_amounts, amounts. rewrite length_map. f_equal.
    clear Hne. induction df as [|r df IH]; [reflexivity|]. simpl.
    rewrite (Hall r (or_introl eq_refl)), String.eqb_refl.
    f_equal. apply IH. intros r' Hr'. apply Hall. right. exact Hr'.
  - destruct df; [congruence|discriminate].
  - intros x Hx. unfold category_column in Hx. apply in_map_iff in Hx.
    destruct Hx as (r & <- & Hr). apply Hall. exact Hr.
Qed.

Lemma single_category_row_witness :
  map cat (category_totals
             [mkRow 20089%Z "Food" 50; mkRow 20090%Z "Food" (1255 # 100)])
    = ["Food"%string] /\
  map count (category_totals
               [mkRow 20089%Z "Food" 50; mkRow 20090%Z "Food" (1255 # 100)])
    = [Total_Transactions
         (summary [mkRow 20089%Z "Food" 50; mkRow 20090%Z "Food" (1255 # 100)])].
Proof.
  apply single_category_row.
  - discriminate.
  - intros r [<-|[<-|[]]]; reflexivity.
Defined.

(** X8: when every amount of a non-empty frame is (equal to) [a], the
    highest and the lowest sale are both [a]. *)
Theorem constant_amounts_extremes (a : Q) (df : DataFrame) :
  df <> [] -> (forall r, In r df -> Amount r == a) ->
  float_eq (Highest_Sale (summary df)) (Num a) /\
  float_eq (Lowest_Sale (summary df)) (Num a).
Proof.
  intros Hne Hall.
  assert (Ha : amounts df <> []) by (destruct df; [congruence|discriminate]).
  assert (Hall' : forall x, In x (amounts df) -> x == a).
  { intros x Hx. unfold amounts in Hx. apply in_map_iff in Hx.
    destruct Hx as (r & <- & Hr). apply Hall. exact Hr. }
  destruct (series_max_spec _ Ha) as (mx & Emx & Imx & _).
  destruct (series_min_spec _ Ha) as (mn & Emn & Imn & _).
  simpl. rewrite Emx, Emn. simpl.
  split; [exact (Hall' mx Imx)|exact (Hall' mn Imn)].
Qed.

Lemma constant_amounts_extremes_witness :
  float_eq (Highest_Sale
              (summary [mkRow 20089%Z "Food" 50; mkRow 20090%Z "Books" (100 # 2)]))
           (Num 50) /\
  float_eq (Lowest_Sale
              (summary [mkRow 20089%Z "Food" 50; mkRow 20090%Z "Books" (100 # 2)]))
           (Num 50).
Proof.
  apply constant_amounts_extremes.
  - discriminate.
  - intros r [<-|[<-|[]]]; reflexivity.
Defined.

(** * Further properties of rounding and formatting *)

Lemma rint_comp (x y : Q) : x == y -> rint x = rint y.
Proof.
  intros E. unfold rint. rewrite (Qfloor_comp x y E).
  assert (E' : x - inject_Z (Qfloor y) == y - inject_Z (Qfloor y))
    by (rewrite E; reflexivity).
  rewrite (Qcompare_comp _ _ E' (1 # 2) (1 # 2) (Qeq_refl _)). reflexivity.
Qed.

Lemma rint_Z (z : Z) : rint (inject_Z z) = z.
Proof.
  unfold rint. rewrite Qfloor_Z.
  assert (E : inject_Z z - inject_Z z == 0) by ring.
  rewrite (Qcompare_comp _ _ E (1 # 2) (1 # 2) (Qeq_refl _)). reflexivity.
Qed.


Lemma rint_mono (x y : Q) : x <= y -> (rint x <= rint y)%Z.
Proof.
  intros H. pose proof (Qfloor_resp_le _ _ H) as Hf.
  destruct (Z.eq_dec (Qfloor x) (Qfloor y)) as [E|NE].
  - unfold rint. rewrite <- E.
    set (F := inject_Z (Qfloor x)).
    destruct (Qcompare (x - F) (1 # 2)) eqn:Cx;
      [apply Qeq_alt in Cx|apply Qlt_alt in Cx|apply Qgt_alt in Cx];
      (destruct (Qcompare (y - F) (1 # 2)) eqn:Cy;
       [apply Qeq_alt in Cy|apply Qlt_alt in Cy|apply Qgt_alt in Cy]);
      try (destruct (Z.even (Qfloor x))); try lia; exfalso; lra.
  - destruct (rint_floor x) as [Ex|Ex], (rint_floor y) as [Ey|Ey]; lia.
Qed.



(** X10: rounding to two decimals a second time changes nothing. *)
Theorem np_round2_idempotent (xs : list Q) :
  np_round2 (np_round2 xs) = np_round2 xs.
Proof.
  induction xs as [|x xs IH]; simpl; [reflexivity|]. rewrite IH.
  f_equal. f_equal. f_equal.
  rewrite <- (rint_Z (rint (x * 100))) at 2.
  apply rint_comp. field.
Qed.

(** X11: rounding to two decimals keeps the order of the amounts. *)
Theorem np_round2_monotone (xs ys : list Q) :
  Forall2 Qle xs ys -> Forall2 Qle (np_round2 xs) (np_round2 ys).
Proof.
  induction 1 as [|x y xs ys Hxy _ IH]; simpl; constructor; [|exact IH].
  apply Qmult_le_compat_r; [|discriminate].
  rewrite <- Zle_Qle. apply rint_mono.
  apply Qmult_le_compat_r; [exact Hxy|discriminate].
Qed.

Lemma np_round2_monotone_witness :
  Forall2 Qle (np_round2 [1234 # 1000; 5]) (np_round2 [1236 # 1000; 5]).
Proof.
  apply np_round2_monotone.
  constructor; [discriminate|]. constructor; [discriminate|constructor].
Defined.

Lemma commas_strip (ds : list ascii) :
  Forall (fun c => not_comma c = true) ds ->
  forall k, filter not_comma (commas k ds) = ds.
Proof.
  induction 1 as [|d ds Hd _ IH]; intros k; simpl; [reflexivity|].
  destruct k; simpl; rewrite Hd, IH; reflexivity.
Qed.

Lemma commas_length (ds : list ascii) :
  forall k, (k <= 3)%nat ->
  (List.length (commas k ds) =
   List.length ds + (List.length ds - k + 2) / 3)%nat.
Proof.
  induction ds as [|d ds IH]; intros k Hk; cbn [commas List.length].
  - zify; Z.div_mod_to_equations; lia.
  - destruct k as [|k]; cbn [List.length]; rewrite IH by lia;
      zify; Z.div_mod_to_equations; lia.
Qed.

Lemma digit_not_comma (c : ascii) : is_digit c = true -> not_comma c = true.
Proof.
  intros H. unfold not_comma.
  destruct (Ascii.eqb_spec c ","%char) as [E|E]; [|reflexivity].
  subst c. vm_compute in H. discriminate H.
Qed.

Lemma group_thousands_strip (ds : list ascii) :
  Forall (fun c => is_digit c = true) ds ->
  filter not_comma (group_thousands ds) = ds.
Proof.
  intros Hd. unfold group_thousands.
  rewrite filter_rev, commas_strip, rev_involutive; [reflexivity|].
  apply Forall_rev. eapply Forall_impl; [|exact Hd]. apply digit_not_comma.
Qed.

(** X12: the thousands separators only add commas: taking the commas out
    gives the digits back, and a number of [n] digits gets [(n - 1) / 3]
    of them. *)
Theorem group_thousands_digits (ds : list ascii) :
  Forall (fun c => is_digit c = true) ds ->
  filter not_comma (group_thousands ds) = ds /\
  (List.length (group_thousands ds) =
   List.length ds + (List.length ds - 1) / 3)%nat.
Proof.
  intros Hd. split; [apply group_thousands_strip; exact Hd|].
  unfold group_thousands.
  rewrite length_rev, commas_length, length_rev by lia.
  zify; Z.div_mod_to_equations; lia.
Qed.

Lemma group_thousands_digits_witness :
  filter not_comma (group_thousands (digits 1234567)) = digits 1234567 /\
  (List.length (group_thousands (digits 1234567)) =
   List.length (digits 1234567) + (List.length (digits 1234567) - 1) / 3)%nat.
Proof.
  apply group_thousands_digits. apply digits_all.
Defined.

(** * Further properties of the category table *)




(** X15: the report of the empty frame: a count of 0, a total of "0.00",
    "nan" for the average, the highest and the lowest sale, and a category
    table that is the header alone. *)
Theorem report_of_empty_frame :
  data_summary (summary []) =
    [ ("Total Transactions"%string, IntCell 0);
      ("Total Amount"%string, StrCell "0.00");
      ("Average Amount"%string, StrCell "nan");
      ("Highest Sale"%string, StrCell "nan");
      ("Lowest Sale"%string, StrCell "nan") ] /\
  cat_table_data (category_totals []) =
    [ [OStr "Category"; OStr "count"; OStr "sum"; OStr "mean"] ].
Proof. split; vm_compute; reflexivity. Qed.

(** * Further properties of the statistics of a bounded frame *)

Lemma series_bounds (lo hi : Q) (xs : list Q) :
  xs <> [] -> (forall x, In x xs -> lo <= x /\ x <= hi) ->
  float_between lo hi (series_mean xs) /\
  float_between lo hi (series_max xs) /\
  float_between lo hi (series_min xs) /\
  inject_Z (Z.of_nat (List.length xs)) * lo <= series_sum xs /\
  series_sum xs <= inject_Z (Z.of_nat (List.length xs)) * hi.
Proof.
  intros Hne Hb.
  destruct (series_max_spec _ Hne) as (mx & Emx & Imx & _).
  destruct (series_min_spec _ Hne) as (mn & Emn & Imn & _).
  assert (Hlo : inject_Z (Z.of_nat (List.length xs)) * lo <= series_sum xs)
    by (apply series_sum_lower; intros x Hx; apply Hb; exact Hx).
  assert (Hhi : series_sum xs <= inject_Z (Z.of_nat (List.length xs)) * hi)
    by (apply series_sum_upper; intros x Hx; apply Hb; exact Hx).
  rewrite Emx, Emn.
  split; [|split; [exact (Hb mx Imx)|split; [exact (Hb mn Imn)|split; assumption]]].
  destruct xs as [|x xs]; [congruence|].
  pose proof (inject_len_pos Q x xs) as Hpos.
  unfold series_mean, float_between. split.
  - apply Qle_shift_div_l; [exact Hpos|]. rewrite Qmult_comm. exact Hlo.
  - apply Qle_shift_div_r; [exact Hpos|]. rewrite Qmult_comm. exact Hhi.
Qed.

(** * Further properties of the sample dataset *)

Section SampleDatasetProperties.

Context {RS : RandomState}.

(** X17: with an empty date range the data source raises as soon as one
    row is asked for; asked for no row, it returns the empty frame and
    leaves the generator just seeded. *)
Theorem sample_dataset_edges (sd : Z) (start : date) (s0 : rng) :
  (forall size, sample_dataset sd start 0 (S size) s0 = None) /\
  (forall periods, sample_dataset sd start periods 0 s0 = Some ([], seed sd)).
Proof.
  split.
  - intros size. unfold sample_dataset, bind, np_random_seed, np_random_choice.
    simpl. unfold bind.
    destruct (random_below 0 (seed sd)) as [i s']. destruct i; reflexivity.
  - intros periods. reflexivity.
Qed.

Lemma df_rows (s0 : rng) :
  exists t s',
    df s0 = Some (t, s') /\ List.length t = 120%nat /\
    forall r, In r t ->
      (50 <= Amount r /\ Amount r <= 1000) /\ In (Category r) categories.
Proof.
  destruct (sample_dataset_ok 10 (days_from_civil 2025 1 1) 100 120 s0)
    as (t & s' & E & Hlen & Hall); [lia|].
  exists t, s'. split; [exact E|]. split; [exact Hlen|].
  intros r Hr. rewrite Forall_forall in Hall.
  destruct (Hall r Hr) as (_ & H50 & H1000 & _ & Hc & _). tauto.
Qed.

(** X18: on the script's dataset the summary counts 120 transactions, the
    total lies between 6000 and 120000, and the average, the highest and
    the lowest sale lie between 50 and 1000. *)
Theorem df_summary_bounds (s0 : rng) :
  exists t s',
    df s0 = Some (t, s') /\
    Total_Transactions (summary t) = 120%nat /\
    float_between 6000 120000 (Total_Amount (summary t)) /\
    float_between 50 1000 (Average_Amount (summary t)) /\
    float_between 50 1000 (Highest_Sale (summary t)) /\
    float_between 50 1000 (Lowest_Sale (summary t)).
Proof.
  destruct (df_rows s0) as (t & s' & E & Hlen & Hall).
  exists t, s'. split; [exact E|]. split; [exact Hlen|].
  destruct (series_bounds 50 1000 (amounts t)) as (H1 & H2 & H3 & H4 & H5).
  - destruct t; [discriminate Hlen|discriminate].
  - intros x Hx. unfold amounts in Hx. apply in_map_iff in Hx.
    destruct Hx as (r & <- & Hr). apply Hall. exact Hr.
  - unfold amounts in H4, H5. rewrite length_map, Hlen in H4, H5.
    repeat split; assumption.
Qed.

(** X19: on the script's dataset the category table has between one and
    four rows; every row is for one of the four fixed categories, counts
    between 1 and 120 transactions and has a mean between 50 and 1000. *)
Theorem df_category_rows (s0 : rng) :
  exists t s',
    df s0 = Some (t, s') /\
    (1 <= List.length (category_totals t) <= 4)%nat /\
    Forall (fun row => In (cat row) categories /\
                       (1 <= count row <= 120)%nat /\
                       float_between 50 1000 (mean row))
           (category_totals t).
Proof.
  destruct (df_rows s0) as (t & s' & E & Hlen & Hall).
  exists t, s'. split; [exact E|].
  assert (Hkeys : forall k, In k (group_keys (category_column t)) ->
                            In k categories).
  { intros k Hk. apply (proj1 (group_keys_In _ _)) in Hk.
    unfold category_column in Hk. apply in_map_iff in Hk. destruct Hk as (r & <- & Hr). apply Hall. exact Hr. }
  assert (Hl : List.length (category_totals t)
               = List.length (group_keys (category_column t))).
  { rewrite <- category_totals_keys. symmetry. apply length_map. }
  split.
  - rewrite Hl. split.
    + destruct t as [|r t]; [discriminate Hlen|].
      assert (Hin : In (Category r) (group_keys (category_column (r :: t))))
        by (apply group_keys_In; left; reflexivity).
      destruct (group_keys (category_column (r :: t))); [contradiction|simpl; lia].
    + change 4%nat with (List.length categories).
      apply NoDup_incl_length; [apply sorted_NoDup, group_keys_sorted|].
      exact Hkeys.
  - apply Forall_forall. intros row Hrow. unfold category_totals in Hrow.
    apply in_map_iff in Hrow. destruct Hrow as (k & <- & Hk).
    split; [apply Hkeys; exact Hk|].
    pose proof (group_nonempty k t Hk) as Hne.
    assert (Hb : forall x, In x (group_amounts k t) -> 50 <= x /\ x <= 1000).
    { intros x Hx. apply group_amounts_incl in Hx. unfold amounts in Hx.
      apply in_map_iff in Hx. destruct Hx as (r & <- & Hr). apply Hall. exact Hr. }
    destruct (series_bounds 50 1000 _ Hne Hb) as (Hm & _).
    split; [|exact Hm]. simpl.
    split.
    + destruct (group_amounts k t); [congruence|simpl; lia].
    + unfold group_amounts, amounts. rewrite length_map, <- Hlen.
      apply filter_length_le.
Qed.

End SampleDatasetProperties.

(** * What the [,.2f] format keeps of a number *)

Lemma digits_inj (n m : N) : digits n = digits m -> n = m.
Proof.
  unfold digits. intros E.
  apply (f_equal string_of_list_ascii) in E.
  rewrite !string_of_list_ascii_of_string in E.
  assert (Hnil : forall k, N.to_uint k <> Decimal.Nil).
  { intros [|p]; [discriminate|apply DecimalPos.Unsigned.to_uint_nonnil]. }
  apply (f_equal NilZero.uint_of_string) in E.
  rewrite !NilZero.usu in E by apply Hnil.
  injection E as E. apply DecimalN.Unsigned.to_uint_inj. exact E.
Qed.

Lemma split_at_unique (A : Type) (p : A) (g : list A) :
  forall g' t t',
    ~ In p g -> ~ In p g' -> g ++ p :: t = g' ++ p :: t' -> g = g' /\ t = t'.
Proof.
  induction g as [|a g IH]; intros [|b g'] t t' Hg Hg' E; simpl in E.
  - injection E as E. auto.
  - injection E as E1 E2. exfalso. apply Hg'. left. symmetry. exact E1.
  - injection E as E1 E2. exfalso. apply Hg. left. exact E1.
  - injection E as E1 E2. subst b.
    destruct (IH g' t t') as [-> ->]; auto.
    + intros H. apply Hg. right. exact H.
    + intros H. apply Hg'. right. exact H.
Qed.

Lemma group_thousands_chars (P : ascii -> Prop) (ds : list ascii) :
  P ","%char -> Forall P ds -> Forall P (group_thousands ds).
Proof.
  intros Hc Hd. unfold group_thousands.
  apply Forall_rev, commas_chars; [exact Hc|apply Forall_rev; exact Hd].
Qed.

Lemma unsigned_2f_no_minus (h : N) :
  Forall (fun c => Ascii.eqb c "-"%char = false) (unsigned_2f h).
Proof.
  unfold unsigned_2f. apply Forall_app. split.
  - apply group_thousands_chars; [reflexivity|].
    eapply Forall_impl; [|apply digits_all]. apply digit_not_minus.
  - constructor; [reflexivity|]. apply Forall_app.
    split; (eapply Forall_impl; [|apply digits_all]); apply digit_not_minus.
Qed.

Lemma unsigned_2f_inj (h h' : N) : unsigned_2f h = unsigned_2f h' -> h = h'.
Proof.
  unfold unsigned_2f. intros E.
  assert (Hnp : forall n, ~ In "."%char (group_thousands (digits n))).
  { intros n Hin.
    assert (Hall : Forall (fun c => Ascii.eqb c "."%char = false)
                          (group_thousands (digits n))).
    { apply group_thousands_chars; [reflexivity|].
      eapply Forall_impl; [|apply digits_all]. apply digit_not_point. }
    rewrite Forall_forall in Hall. apply Hall in Hin. discriminate Hin. }
  apply split_at_unique in E; [|apply Hnp|apply Hnp].
  destruct E as [Eg Et].
  assert (E100 : (h / 100 = h' / 100)%N).
  { apply digits_inj.
    rewrite <- (group_thousands_strip _ (digits_all (h / 100))).
    rewrite <- (group_thousands_strip _ (digits_all (h' / 100))).
    rewrite Eg. reflexivity. }
  destruct (digits_one ((h / 10) mod 10)) as (a & Ea & _);
    [apply N.mod_lt; discriminate|].
  destruct (digits_one (h mod 10)) as (b & Eb & _);
    [apply N.mod_lt; discriminate|].
  destruct (digits_one ((h' / 10) mod 10)) as (a' & Ea' & _);
    [apply N.mod_lt; discriminate|].
  destruct (digits_one (h' mod 10)) as (b' & Eb' & _);
    [apply N.mod_lt; discriminate|].
  rewrite Ea, Eb, Ea', Eb' in Et. simpl in Et. injection Et as E1 E2.
  assert (E10 : ((h / 10) mod 10 = (h' / 10) mod 10)%N)
    by (apply digits_inj; rewrite Ea, Ea', E1; reflexivity).
  assert (E1' : (h mod 10 = h' mod 10)%N)
    by (apply digits_inj; rewrite Eb, Eb', E2; reflexivity).
  clear - E100 E10 E1'. zify. Z.div_mod_to_equations. lia.
Qed.

(** X20: two numbers are written the same by [,.2f] only if they round to
    the same number of cents. *)
Theorem format_2f_injective (a b : Q) :
  format_2f (Num a) = format_2f (Num b) -> rint (a * 100) = rint (b * 100).
Proof.
  unfold format_2f. intros E.
  apply (f_equal list_ascii_of_string) in E.
  rewrite !list_ascii_of_string_of_list_ascii in E.
  fold (unsigned_2f (Z.to_N (Z.abs (rint (a * 100))))) in E.
  fold (unsigned_2f (Z.to_N (Z.abs (rint (b * 100))))) in E.
  assert (Hneg : forall q, Qcompare q 0 = Lt -> (rint (q * 100) <= 0)%Z).
  { intros q C. apply Qlt_alt in C. apply rint_upper.
    change (inject_Z 0) with 0. lra. }
  assert (Hpos : forall q, Qcompare q 0 <> Lt -> (0 <= rint (q * 100))%Z).
  { intros q C. apply Qge_alt in C. apply rint_lower.
    change (inject_Z 0) with 0. lra. }
  pose proof (unsigned_2f_no_minus (Z.to_N (Z.abs (rint (a * 100))))) as Ma.
  pose proof (unsigned_2f_no_minus (Z.to_N (Z.abs (rint (b * 100))))) as Mb.
  assert (Hhead : forall l l', Forall (fun c => Ascii.eqb c "-"%char = false) l ->
                               "-"%char :: l' = l -> False).
  { intros l l' Hl El. subst l. inversion Hl as [|? ? Hc _]. discriminate Hc. }
  pose proof (Hneg a) as Na. pose proof (Hpos a) as Pa.
  pose proof (Hneg b) as Nb. pose proof (Hpos b) as Pb.
  destruct (Qcompare a 0) eqn:Ca; destruct (Qcompare b 0) eqn:Cb; simpl in E;
    try (exfalso; exact (Hhead _ _ Mb E));
    try (exfalso; symmetry in E; exact (Hhead _ _ Ma E));
    try (injection E as E);
    apply unsigned_2f_inj in E;
    try (specialize (Na eq_refl)); try (specialize (Nb eq_refl));
    try (assert (0 <= rint (a * 100))%Z by (apply Pa; discriminate));
    try (assert (0 <= rint (b * 100))%Z by (apply Pb; discriminate));
    lia.
Qed.

Lemma format_2f_injective_witness : rint ((12346 # 10000) * 100) = rint ((1234 # 1000) * 100).
Proof.
  apply format_2f_injective. vm_compute. reflexivity.
Defined.
